(** * The Notion blog: mapping of remote pages and blocks to posts, and the
      page-generation functions of the listing and the detail route.

    Shallow embedding of [src/pages/index.tsx] (listing route: the fetch
    and the mapper inside [getStaticProps]) and of the detail route
    ([getStaticProps] and [getStaticPaths] of the [slug] page).

    JavaScript values are modelled as follows.
    - [string | null] is [option string]; [null] is [None].
    - An object of the remote API is a record of the fields the code reads.
    - [page.properties] is a JavaScript object used as a dictionary: a
      [gmap string Property.t].  Reading a key that is not there gives
      [undefined], and reading a field of [undefined] throws a TypeError.
    - An [async] function returns an [Outcome]: it either returns a value
      or throws (a TypeError of the code itself, or the rejection of a
      remote call). *)

From stdpp Require Import base option list strings pretty gmap.

Local Open Scope string_scope.
Local Open Scope list_scope.

(** ** Outcomes of fallible code *)

Inductive Exception : Type :=
  | TypeError   (* a field of [undefined] was read *)
  | Rejected.   (* a remote call failed *)

Inductive Outcome (A : Type) : Type :=
  | Returns (a : A)
  | Throws (e : Exception).

Arguments Returns {A} a.
Arguments Throws {A} e.

#[global] Instance Outcome_ret : MRet Outcome := fun _ a => Returns a.

#[global] Instance Outcome_bind : MBind Outcome := fun _ _ k m =>
  match m with
  | Returns a => k a
  | Throws e => Throws e
  end.

(** [array.forEach((item, index) => ...)] whose callback updates a local
    accumulator [s]; an exception of the callback ends the loop. *)
Fixpoint forEach {A St : Type} (callback : St → nat → A → Outcome St)
    (index : nat) (items : list A) (s : St) : Outcome St :=
  match items with
  | [] => Returns s
  | item :: rest => s' ← callback s index item; forEach callback (S index) rest s'
  end.

(** [Promise.all(promises)]: all the values in order when every promise
    resolves, and a rejection when one of them rejects.  When several
    reject, JavaScript rejects with the one that rejects first in time;
    there is no time here and the first in the order of the list is
    taken, so only the fact that a failed batch throws, and that it
    throws the exception of one of its promises, is to be read off this
    definition, not which one. *)
Fixpoint Promise_all {A : Type} (promises : list (Outcome A)) : Outcome (list A) :=
  match promises with
  | [] => Returns []
  | p :: rest =>
      match p, Promise_all rest with
      | Returns a, Returns l => Returns (a :: l)
      | Throws e, _ => Throws e
      | Returns _, Throws e => Throws e
      end
  end.

(** [o ?? TypeError]: the value of an expression that must not be
    [undefined] because a field of it is read next. *)
Definition defined {A : Type} (o : option A) : Outcome A :=
  match o with
  | Some a => Returns a
  | None => Throws TypeError
  end.

(** ** The remote shapes *)

Record RichTextItemResponse : Type := { plain_text : string }.

(** [runs[0]?.plain_text ?? null] *)
Definition first_plain_text (runs : list RichTextItemResponse) : option string :=
  plain_text <$> runs !! 0.

Module Property.
(** A property value of a page: its discriminant and the two payloads
    the mapper reads, [title] when [type] is "title" and [rich_text]
    when it is "rich_text". *)
Record t : Type := {
  type : string;
  title : list RichTextItemResponse;
  rich_text : list RichTextItemResponse
}.
End Property.

Module Page.
Record t : Type := {
  id : string;
  properties : gmap string Property.t;
  created_time : string;
  last_edited_time : string
}.
End Page.

(** An element of [database.results]: a partial page has an [id] and no
    'properties' key. *)
Inductive PageResult : Type :=
  | PartialPageObjectResponse (id : string)
  | PageObjectResponse (page : Page.t).

Definition page_id (page : PageResult) : string :=
  match page with
  | PartialPageObjectResponse id => id
  | PageObjectResponse p => Page.id p
  end.

Module Block.
(** [block[block.type]]: the payload stored under the block's own tag.
    The five tags of the mapper all carry [rich_text]; [language] is
    what a "code" payload carries besides. *)
Record body : Type := {
  rich_text : list RichTextItemResponse;
  language : string
}.
Record t : Type := {
  id : string;
  type : string;
  has_children : bool;
  content : body
}.
End Block.

(** An element of [blocks.results]: a partial block has no 'type' key. *)
Inductive BlockResult : Type :=
  | PartialBlockObjectResponse (id : string)
  | BlockObjectResponse (block : Block.t).

Module Children.
(** The response of [notion.blocks.children.list]: one page of blocks
    and the cursor to the next one. *)
Record t : Type := {
  results : list BlockResult;
  has_more : bool;
  next_cursor : option string
}.
End Children.

Module Database.
(** The response of [notion.databases.query]. *)
Record t : Type := {
  results : list PageResult;
  has_more : bool;
  next_cursor : option string
}.
End Database.

(** ** The mapped shapes: [Content] and [Post] *)

Inductive TextType : Type := paragraph | quote | heading_2 | heading_3.

Inductive Content : Type :=
  | TextContent (type : TextType) (text : option string)
  | CodeContent (text : option string) (language : option string).

Definition content_text (c : Content) : option string :=
  match c with
  | TextContent _ text => text
  | CodeContent text _ => text
  end.

Module Post.
Record t : Type := {
  id : string;
  title : option string;
  slug : option string;
  createdTs : option string;
  lastEditedTs : option string;
  contents : list Content
}.
End Post.

(** ** The mapper of [src/pages/index.tsx] *)

(** The callback of [blocks.results.forEach] (lines 100-137): the early
    return on a block without 'type', then the [switch] on [block.type],
    pushing onto [contents]. *)
Definition pushContent (contents : list Content) (block : BlockResult) : list Content :=
  match block with
  | PartialBlockObjectResponse _ => contents
  | BlockObjectResponse b =>
      let text := first_plain_text (Block.rich_text (Block.content b)) in
      if String.eqb (Block.type b) "paragraph" then
        contents ++ [TextContent paragraph text]
      else if String.eqb (Block.type b) "heading_2" then
        contents ++ [TextContent heading_2 text]
      else if String.eqb (Block.type b) "heading_3" then
        contents ++ [TextContent heading_3 text]
      else if String.eqb (Block.type b) "quote" then
        contents ++ [TextContent quote text]
      else if String.eqb (Block.type b) "code" then
        contents ++ [CodeContent text (Some (Block.language (Block.content b)))]
      else contents
  end.

(** [const contents = []; blocks.results.forEach(...)] (lines 98-137) *)
Definition mapContents (blocks : list BlockResult) : list Content :=
  fold_left pushContent blocks [].

(** [let title = null; if (page.properties['Name'].type === 'title')
    title = page.properties['Name'].title[0]?.plain_text ?? null]
    (lines 88-91) *)
Definition readTitle (page : Page.t) : Outcome (option string) :=
  name ← defined (Page.properties page !! "Name");
  if String.eqb (Property.type name) "title"
  then Returns (first_plain_text (Property.title name))
  else Returns None.

(** [let slug = null; if (page.properties['Slug'].type === 'rich_text')
    slug = page.properties['Slug'].rich_text[0]?.plain_text ?? null]
    (lines 92-95) *)
Definition readSlug (page : Page.t) : Outcome (option string) :=
  prop ← defined (Page.properties page !! "Slug");
  if String.eqb (Property.type prop) "rich_text"
  then Returns (first_plain_text (Property.rich_text prop))
  else Returns None.

(** The post pushed for a partial page (lines 77-84). *)
Definition partialPost (id : string) : Post.t :=
  {| Post.id := id; Post.title := None; Post.slug := None;
     Post.createdTs := None; Post.lastEditedTs := None; Post.contents := [] |}.

(** The callback of [database.results.forEach((page, index) => ...)]
    (lines 74-147), pushing onto [posts]: the partial branch first, then
    title, slug, [blockResponses[index]] and the contents of a full
    page. *)
Definition pushPost (blockResponses : list Children.t)
    (posts : list Post.t) (index : nat) (page : PageResult) : Outcome (list Post.t) :=
  match page with
  | PartialPageObjectResponse id => Returns (posts ++ [partialPost id])
  | PageObjectResponse p =>
      title ← readTitle p;
      slug ← readSlug p;
      blocks ← defined (blockResponses !! index);
      let contents := mapContents (Children.results blocks) in
      Returns (posts ++ [
        {| Post.id := Page.id p; Post.title := title; Post.slug := slug;
           Post.createdTs := Some (Page.created_time p);
           Post.lastEditedTs := Some (Page.last_edited_time p);
           Post.contents := contents |}])
  end.

(** The loop over the query result: [const posts = []] and the
    [forEach] over [database.results]. *)
Definition mapResults (results : list PageResult)
    (blockResponses : list Children.t) : Outcome (list Post.t) :=
  forEach (pushPost blockResponses) 0 results [].

(** ** The listing route, [src/pages/index.tsx] *)

Module Index.
Record StaticProps : Type := { posts : list Post.t }.

Section Remote.
(** The two remote calls: [notion.databases.query] with the filter on
    'Published' and the sort on the creation time, and
    [notion.blocks.children.list({ block_id })]. *)
Variable databases_query : Outcome Database.t.
Variable blocks_children_list : string → Outcome Children.t.

Definition getStaticProps : Outcome StaticProps :=
  database ← databases_query;
  blockResponses ← Promise_all
    (map (λ page, blocks_children_list (page_id page)) (Database.results database));
  posts ← mapResults (Database.results database) blockResponses;
  Returns {| posts := posts |}.
End Remote.
End Index.

(** ** The detail route, the [slug] page *)

(** [array.shift()]: the first element, or [undefined] on an empty
    array, and the array that is left. *)
Definition shift {A : Type} (l : list A) : option A * list A :=
  match l with
  | [] => (None, [])
  | x :: rest => (Some x, rest)
  end.

(** [if (s)] on a [string | null]: [null] and the empty string are falsy. *)
Definition truthy (s : option string) : bool :=
  match s with
  | None => false
  | Some s => negb (String.eqb s "")
  end.

Module SlugPage.
Record StaticPathsParams : Type := { slug : string }.

Record StaticProps : Type := { post : option Post.t }.

Record Redirect : Type := { destination : string }.

Record Context : Type := {
  params : option StaticPathsParams;
  preview : option bool
}.

Record PropsResult : Type := {
  props : StaticProps;
  redirect : option Redirect
}.

(** An element of [paths]: [{ params: { slug } }]. *)
Record Path : Type := { path_params : StaticPathsParams }.

Record PathsResult : Type := {
  paths : list Path;
  fallback : string
}.

Definition notFoundProps : PropsResult :=
  {| props := {| post := None |};
     redirect := Some {| destination := "/404" |} |}.

(** [post.contents = contents] *)
Definition set_contents (post : Post.t) (contents : list Content) : Post.t :=
  {| Post.id := Post.id post; Post.title := Post.title post;
     Post.slug := Post.slug post; Post.createdTs := Post.createdTs post;
     Post.lastEditedTs := Post.lastEditedTs post; Post.contents := contents |}.

(** The callback of [posts.forEach] in [getStaticPaths], pushing onto
    [paths]. *)
Definition pushPath (paths : list Path) (post : Post.t) : list Path :=
  if truthy (Post.slug post) then
    match Post.slug post with
    | Some slug => paths ++ [{| path_params := {| slug := slug |} |}]
    | None => paths
    end
  else paths.

Section Fetch.
(** [getPosts] and [getPostContents] are imported from the listing
    module; the detail route only calls them. *)
Variable getPosts : option string → Outcome (list Post.t).
Variable getPostContents : Post.t → Outcome (list Content).

Definition getStaticProps (context : Context) : Outcome PropsResult :=
  match params context with
  | None => Returns notFoundProps
  | Some params =>
      posts ← getPosts (Some (slug params));
      let '(post, posts) := shift posts in
      match post with
      | None => Returns notFoundProps
      | Some post =>
          contents ← getPostContents post;
          Returns {| props := {| post := Some (set_contents post contents) |};
                     redirect := None |}
      end
  end.

Definition getStaticPaths : Outcome PathsResult :=
  posts ← getPosts None;
  Returns {| paths := fold_left pushPath posts []; fallback := "blocking" |}.
End Fetch.
End SlugPage.

(** ** The page component of the listing route, [Home] *)

(** What a component renders: an expression child [{e}] of type
    [string | null] ([null] renders nothing), or an element with its
    tag, its [key], its [className] and its children. *)
#[warnings="-register-all"]
Inductive Element : Type :=
  | Text (text : option string)
  | Tag (tag : string) (key : option string) (className : option string)
        (children : list Element).

Definition element_key (element : Element) : option string :=
  match element with
  | Text _ => None
  | Tag _ key _ _ => key
  end.

Definition element_children (element : Element) : list Element :=
  match element with
  | Text _ => []
  | Tag _ _ _ children => children
  end.

Module Styles.
(** The class names of the style sheet [Home.module.css], which the
    component reads as [styles.wrapper], [styles.post] and so on. *)
Record t : Type := {
  wrapper : string;
  post : string;
  title : string;
  timestampWrapper : string;
  timestamp : string;
  heading2 : string;
  heading3 : string;
  paragraph : string;
  code : string;
  quote : string
}.
End Styles.

(** [`${e}`] on a [string | null]: [null] is printed as the word null. *)
Definition template (e : option string) : string :=
  match e with
  | Some s => s
  | None => "null"
  end.

Module Home.
Section Render.
Variable styles : Styles.t.
(** [dayjs(ts).format('YYYY-MM-DD HH:mm:ss')] of the date library. *)
Variable dayjs_format : option string → string.

(** The callback of [post.contents.map((content, index) => ...)]
    (lines 174-211): the key [`${post.id}_${index}`] and the [switch]
    on [content.type]. *)
Definition renderContent (post_id : string) (index : nat) (content : Content) : Element :=
  let key := post_id +:+ "_" +:+ pretty index in
  match content with
  | TextContent heading_2 text =>
      Tag "h2" (Some key) (Some (Styles.heading2 styles)) [Text text]
  | TextContent heading_3 text =>
      Tag "h3" (Some key) (Some (Styles.heading3 styles)) [Text text]
  | TextContent paragraph text =>
      Tag "h3" (Some key) (Some (Styles.paragraph styles)) [Text text]
  | CodeContent text language =>
      Tag "pre" (Some key)
        (Some (Styles.code styles +:+ " lang-" +:+ template language +:+ " "))
        [Tag "code" None None [Text text]]
  | TextContent quote text =>
      Tag "blockquote" (Some key) (Some (Styles.quote styles)) [Text text]
  end.

(** The callback of [posts.map((post) => ...)] (lines 162-214). *)
Definition renderPost (post : Post.t) : Element :=
  Tag "div" (Some (Post.id post)) (Some (Styles.post styles))
    [Tag "h1" None (Some (Styles.title styles)) [Text (Post.title post)];
     Tag "div" None (Some (Styles.timestampWrapper styles))
       [Tag "div" None (Some (Styles.timestamp styles))
          [Text (Some "作成日時 ");
           Text (Some (dayjs_format (Post.createdTs post)))];
        Tag "div" None (Some (Styles.timestamp styles))
          [Text (Some "更新日時 ");
           Text (Some (dayjs_format (Post.lastEditedTs post)))]];
     Tag "div" None None
       (imap (renderContent (Post.id post)) (Post.contents post))].

(** What [Home] returns (lines 160-216). *)
Definition render (props : Index.StaticProps) : Element :=
  Tag "div" None (Some (Styles.wrapper styles))
    (renderPost <$> Index.posts props).
End Render.
End Home.

(** The [type] field of a [Content]. *)
Definition content_type (c : Content) : string :=
  match c with
  | TextContent paragraph _ => "paragraph"
  | TextContent quote _ => "quote"
  | TextContent heading_2 _ => "heading_2"
  | TextContent heading_3 _ => "heading_3"
  | CodeContent _ _ => "code"
  end.

(** The [language] field of a [Content], that only the code variant has. *)
Definition content_language (c : Content) : option (option string) :=
  match c with
  | TextContent _ _ => None
  | CodeContent _ language => Some language
  end.

(** ** Predicates of the statements *)

(** The type tags the [switch] has a case for. *)
Definition recognized (type : string) : Prop :=
  type ∈ ["paragraph"; "quote"; "heading_2"; "heading_3"; "code"].

#[global] Instance recognized_dec type : Decision (recognized type).
Proof. unfold recognized. apply _. Defined.

(** A raw block that carries a type tag, and one of the five. *)
Definition has_recognized_type (block : BlockResult) : Prop :=
  match block with
  | PartialBlockObjectResponse _ => False
  | BlockObjectResponse b => recognized (Block.type b)
  end.

#[global] Instance has_recognized_type_dec block : Decision (has_recognized_type block).
Proof. destruct block; simpl; apply _. Defined.

(** [block.has_children] set to [flag], all else equal. *)
Definition with_children (flag : bool) (block : BlockResult) : BlockResult :=
  match block with
  | PartialBlockObjectResponse id => PartialBlockObjectResponse id
  | BlockObjectResponse b =>
      BlockObjectResponse
        {| Block.id := Block.id b; Block.type := Block.type b;
           Block.has_children := flag; Block.content := Block.content b |}
  end.

(** The post pushed for a full page. *)
Definition fullPost (page : Page.t) (title slug : option string)
    (response : Children.t) : Post.t :=
  {| Post.id := Page.id page; Post.title := title; Post.slug := slug;
     Post.createdTs := Some (Page.created_time page);
     Post.lastEditedTs := Some (Page.last_edited_time page);
     Post.contents := mapContents (Children.results response) |}.

(** A full page is well shaped when the two properties the mapper reads
    are there. *)
Definition well_shaped (page : PageResult) : Prop :=
  match page with
  | PartialPageObjectResponse _ => True
  | PageObjectResponse p =>
      is_Some (Page.properties p !! "Name")
      ∧ is_Some (Page.properties p !! "Slug")
  end.

(** A post that gets a route: its slug is neither [null] nor empty. *)
Definition routable (post : Post.t) : Prop :=
  Post.slug post ≠ None ∧ Post.slug post ≠ Some "".

#[global] Instance routable_dec post : Decision (routable post).
Proof. unfold routable. apply _. Defined.

Definition path_of (slug : string) : SlugPage.Path :=
  {| SlugPage.path_params := {| SlugPage.slug := slug |} |}.

(** ** Sample data *)

Definition run (text : string) : RichTextItemResponse := {| plain_text := text |}.

Definition sample_block (type text language : string) : BlockResult :=
  BlockObjectResponse
    {| Block.id := "block-1"; Block.type := type; Block.has_children := false;
       Block.content := {| Block.rich_text := [run text]; Block.language := language |} |}.

Definition empty_heading : BlockResult :=
  BlockObjectResponse
    {| Block.id := "block-2"; Block.type := "heading_3"; Block.has_children := false;
       Block.content := {| Block.rich_text := []; Block.language := "" |} |}.

Definition sample_response (blocks : list BlockResult) : Children.t :=
  {| Children.results := blocks; Children.has_more := false;
     Children.next_cursor := None |}.

Definition sample_name : Property.t :=
  {| Property.type := "title"; Property.title := [run "Hello"; run "World"];
     Property.rich_text := [] |}.

Definition sample_slug (slug : string) : Property.t :=
  {| Property.type := "rich_text"; Property.title := [];
     Property.rich_text := [run slug] |}.

Definition sample_page (id : string) (properties : gmap string Property.t) : Page.t :=
  {| Page.id := id; Page.properties := properties;
     Page.created_time := "2023-05-01T09:00:00.000Z";
     Page.last_edited_time := "2023-05-02T10:30:00.000Z" |}.

Definition hello_page : Page.t :=
  sample_page "page-1" {[ "Name" := sample_name; "Slug" := sample_slug "hello" ]}.

Definition page_without_slug : Page.t :=
  sample_page "page-3" {[ "Name" := sample_name ]}.

Definition empty_slug_page : Page.t :=
  sample_page "page-4" {[ "Name" := sample_name; "Slug" := sample_slug "" ]}.

Definition sample_results : list PageResult :=
  [PageObjectResponse hello_page; PartialPageObjectResponse "page-2"].

Definition sample_responses : list Children.t :=
  [sample_response [sample_block "paragraph" "one" ""];
   sample_response [sample_block "quote" "dropped" ""]].

Definition hello_post : Post.t :=
  {| Post.id := "page-1"; Post.title := Some "Hello"; Post.slug := Some "hello";
     Post.createdTs := Some "2023-05-01T09:00:00.000Z";
     Post.lastEditedTs := Some "2023-05-02T10:30:00.000Z";
     Post.contents := [TextContent paragraph (Some "one")] |}.

Definition empty_slug_post : Post.t :=
  {| Post.id := "page-4"; Post.title := Some "Hello"; Post.slug := Some "";
     Post.createdTs := Some "2023-05-01T09:00:00.000Z";
     Post.lastEditedTs := Some "2023-05-02T10:30:00.000Z";
     Post.contents := [] |}.

Definition sample_posts : list Post.t := [hello_post; partialPost "page-2"].

Definition sample_getPosts (slug : option string) : Outcome (list Post.t) :=
  if decide (slug = Some "hello") then Returns [hello_post] else Returns [].

Definition sample_getPostContents (post : Post.t) : Outcome (list Content) :=
  Returns [TextContent quote (Some "fetched")].

Definition sample_context (slug : string) : SlugPage.Context :=
  {| SlugPage.params := Some {| SlugPage.slug := slug |};
     SlugPage.preview := None |}.

(** The block with the runs after the first one of its rich text
    dropped, all else equal. *)
Definition first_run_only (block : BlockResult) : BlockResult :=
  match block with
  | PartialBlockObjectResponse id => PartialBlockObjectResponse id
  | BlockObjectResponse b =>
      BlockObjectResponse
        {| Block.id := Block.id b; Block.type := Block.type b;
           Block.has_children := Block.has_children b;
           Block.content :=
             {| Block.rich_text := take 1 (Block.rich_text (Block.content b));
                Block.language := Block.language (Block.content b) |} |}
  end.

Definition sample_query : Outcome Database.t :=
  Returns {| Database.results := sample_results; Database.has_more := false;
             Database.next_cursor := None |}.

Definition sample_children (block_id : string) : Outcome Children.t :=
  if decide (block_id = "page-1")
  then Returns (sample_response [sample_block "paragraph" "one" ""])
  else Returns (sample_response [sample_block "quote" "dropped" ""]).

(** The block fetch of the second entry, a partial one, fails. *)
Definition failing_children (block_id : string) : Outcome Children.t :=
  if decide (block_id = "page-2") then Throws Rejected else sample_children block_id.

Definition sample_styles : Styles.t :=
  {| Styles.wrapper := "Home_wrapper"; Styles.post := "Home_post";
     Styles.title := "Home_title";
     Styles.timestampWrapper := "Home_timestampWrapper";
     Styles.timestamp := "Home_timestamp"; Styles.heading2 := "Home_heading2";
     Styles.heading3 := "Home_heading3"; Styles.paragraph := "Home_paragraph";
     Styles.code := "Home_code"; Styles.quote := "Home_quote" |}.

Definition sample_format (ts : option string) : string :=
  match ts with
  | Some ts => ts
  | None => "Invalid Date"
  end.

(** A remote response with its pagination fields replaced, the
    results kept. *)
Definition set_cursor_children (more : bool) (cursor : option string)
    (response : Outcome Children.t) : Outcome Children.t :=
  match response with
  | Returns r =>
      Returns {| Children.results := Children.results r;
                 Children.has_more := more; Children.next_cursor := cursor |}
  | Throws e => Throws e
  end.

Definition set_cursor_database (more : bool) (cursor : option string)
    (response : Outcome Database.t) : Outcome Database.t :=
  match response with
  | Returns r =>
      Returns {| Database.results := Database.results r;
                 Database.has_more := more; Database.next_cursor := cursor |}
  | Throws e => Throws e
  end.

(** * Properties *)

(** ** The block mapper *)

Lemma recognized_cases type :
  recognized type ↔
  type = "paragraph" ∨ type = "quote" ∨ type = "heading_2"
  ∨ type = "heading_3" ∨ type = "code".
Proof.
  unfold recognized. rewrite !elem_of_cons, elem_of_nil. tauto.
Qed.

Lemma eqb_neq_false (s t : string) : s ≠ t → String.eqb s t = false.
Proof. intros Hne. by apply String.eqb_neq. Qed.

(** What a block pushes does not depend on what was pushed before. *)
Lemma pushContent_app contents block :
  pushContent contents block = contents ++ pushContent [] block.
Proof.
  destruct block as [id|b]; simpl.
  - by rewrite app_nil_r.
  - repeat case_match; simpl; by rewrite ?app_nil_r.
Qed.

Lemma fold_pushContent blocks contents :
  fold_left pushContent blocks contents = contents ++ mapContents blocks.
Proof.
  unfold mapContents. revert contents.
  induction blocks as [|block blocks IH]; intros contents; simpl.
  - by rewrite app_nil_r.
  - rewrite (IH (pushContent contents block)), (IH (pushContent [] block)).
    rewrite (pushContent_app contents block). by rewrite app_assoc.
Qed.

Lemma mapContents_cons block blocks :
  mapContents (block :: blocks) = pushContent [] block ++ mapContents blocks.
Proof. unfold mapContents at 1. simpl. apply fold_pushContent. Qed.

Lemma mapContents_app before after :
  mapContents (before ++ after) = mapContents before ++ mapContents after.
Proof.
  induction before as [|block before IH]; simpl; [done|].
  by rewrite !mapContents_cons, IH, app_assoc.
Qed.

Lemma pushContent_unrecognized contents block :
  ¬ has_recognized_type block → pushContent contents block = contents.
Proof.
  destruct block as [id|b]; simpl; [done|].
  rewrite recognized_cases. intros Hno.
  rewrite !eqb_neq_false; [done|..]; intros Heq; apply Hno; tauto.
Qed.

(** A block of a recognized type pushes exactly one element, whatever
    its rich text is. *)
Lemma pushContent_recognized block :
  has_recognized_type block →
  ∃ c, (∀ contents, pushContent contents block = contents ++ [c])
       ∧ match block with
         | PartialBlockObjectResponse _ => False
         | BlockObjectResponse b =>
             content_text c = first_plain_text (Block.rich_text (Block.content b))
         end.
Proof.
  destruct block as [id|b]; simpl; [done|].
  rewrite recognized_cases.
  intros [H|[H|[H|[H|H]]]]; rewrite H; simpl; eauto.
Qed.

Lemma mapContents_with_children flag blocks :
  mapContents (with_children flag <$> blocks) = mapContents blocks.
Proof.
  induction blocks as [|block blocks IH]; [done|].
  rewrite fmap_cons, !mapContents_cons, IH. f_equal.
  by destruct block.
Qed.

Lemma mapContents_length blocks :
  length (mapContents blocks) = length (filter has_recognized_type blocks).
Proof.
  induction blocks as [|block blocks IH]; [done|].
  rewrite mapContents_cons, length_app, IH, filter_cons.
  destruct (decide (has_recognized_type block)) as [Hyes|Hno].
  - destruct (pushContent_recognized block Hyes) as (c & Hc & _).
    by rewrite Hc.
  - by rewrite pushContent_unrecognized.
Qed.

(** ** The page mapper *)

Lemma bind_Returns {A B : Type} (m : Outcome A) (k : A → Outcome B) (b : B) :
  m ≫= k = Returns b ↔ ∃ a, m = Returns a ∧ k a = Returns b.
Proof.
  destruct m as [a|e]; simpl; split.
  - intros Hk. by exists a.
  - by intros (a' & [= <-] & Hk).
  - done.
  - by intros (a' & [=] & _).
Qed.

Lemma defined_Returns {A : Type} (o : option A) (a : A) :
  defined o = Returns a ↔ o = Some a.
Proof. destruct o; simpl; split; congruence. Qed.

Lemma pushPost_full blockResponses posts index page posts' :
  pushPost blockResponses posts index (PageObjectResponse page) = Returns posts' ↔
  ∃ title slug response,
    readTitle page = Returns title ∧ readSlug page = Returns slug
    ∧ blockResponses !! index = Some response
    ∧ posts' = posts ++ [fullPost page title slug response].
Proof.
  unfold pushPost. rewrite bind_Returns. split.
  - intros (title & Htitle & Hrest).
    apply bind_Returns in Hrest as (slug & Hslug & Hrest).
    apply bind_Returns in Hrest as (response & Hresp & Hrest).
    apply defined_Returns in Hresp. injection Hrest as <-.
    by exists title, slug, response.
  - intros (title & slug & response & Htitle & Hslug & Hresp & ->).
    exists title. split; [done|].
    rewrite Hslug. simpl. by rewrite Hresp.
Qed.

Lemma readTitle_present page name :
  Page.properties page !! "Name" = Some name →
  readTitle page =
    Returns (if String.eqb (Property.type name) "title"
             then first_plain_text (Property.title name) else None).
Proof. unfold readTitle. intros ->. simpl. by case_match. Qed.

Lemma readSlug_present page prop :
  Page.properties page !! "Slug" = Some prop →
  readSlug page =
    Returns (if String.eqb (Property.type prop) "rich_text"
             then first_plain_text (Property.rich_text prop) else None).
Proof. unfold readSlug. intros ->. simpl. by case_match. Qed.

Lemma readTitle_Returns page title :
  readTitle page = Returns title → is_Some (Page.properties page !! "Name").
Proof.
  unfold readTitle. destruct (Page.properties page !! "Name"); [eauto|done].
Qed.

Lemma readSlug_Returns page slug :
  readSlug page = Returns slug → is_Some (Page.properties page !! "Slug").
Proof.
  unfold readSlug. destruct (Page.properties page !! "Slug"); [eauto|done].
Qed.

(** Every page pushes one post, with the page's id, or throws. *)
Lemma pushPost_Returns blockResponses posts index page posts' :
  pushPost blockResponses posts index page = Returns posts' →
  ∃ post, posts' = posts ++ [post] ∧ Post.id post = page_id page
          ∧ well_shaped page.
Proof.
  destruct page as [id|page].
  - simpl. intros [= <-]. by exists (partialPost id).
  - intros (title & slug & response & Ht & Hs & _ & ->)%pushPost_full.
    eexists. split; [done|]. split; [done|]. simpl.
    eauto using readTitle_Returns, readSlug_Returns.
Qed.

Lemma pushPost_total blockResponses posts index page :
  well_shaped page → is_Some (blockResponses !! index) →
  ∃ posts', pushPost blockResponses posts index page = Returns posts'.
Proof.
  destruct page as [id|page]; simpl.
  - eauto.
  - intros [[name Hname] [prop Hprop]] [response Hresp].
    eexists. apply pushPost_full.
    eauto 10 using readTitle_present, readSlug_present.
Qed.

Lemma forEach_pushPost_Returns blockResponses results index posts posts' :
  forEach (pushPost blockResponses) index results posts = Returns posts' →
  ∃ pushed, posts' = posts ++ pushed
            ∧ Post.id <$> pushed = page_id <$> results
            ∧ Forall well_shaped results.
Proof.
  revert index posts.
  induction results as [|page results IH]; intros index posts; simpl.
  - intros [= <-]. exists []. by rewrite app_nil_r.
  - intros (mid & Hstep & Hrest)%bind_Returns.
    apply pushPost_Returns in Hstep as (post & -> & Hid & Hshape).
    apply IH in Hrest as (pushed & -> & Hids & Hshapes).
    exists (post :: pushed). rewrite <- app_assoc, !fmap_cons, Hid, Hids.
    auto.
Qed.

Lemma forEach_pushPost_total blockResponses results index posts :
  Forall well_shaped results →
  (index + length results ≤ length blockResponses)%nat →
  ∃ posts', forEach (pushPost blockResponses) index results posts = Returns posts'.
Proof.
  intros Hshape. revert index posts.
  induction Hshape as [|page results Hpage _ IH]; intros index posts Hlen; simpl.
  - eauto.
  - simpl in Hlen.
    destruct (pushPost_total blockResponses posts index page Hpage) as [mid ->].
    { apply lookup_lt_is_Some. lia. }
    simpl. apply IH. lia.
Qed.

Lemma Promise_all_Returns {A B : Type} (f : A → Outcome B) (items : list A) values :
  Promise_all (map f items) = Returns values →
  length values = length items ∧ Forall2 (λ item v, f item = Returns v) items values.
Proof.
  revert values. induction items as [|item items IH]; intros values; simpl.
  - intros [= <-]. by split.
  - destruct (f item) as [v|e] eqn:Hitem; [|done].
    destruct (Promise_all (map f items)) as [vs|e] eqn:Hrest; [|done].
    intros [= <-]. destruct (IH vs eq_refl) as [Hlen Hall].
    simpl. split; [by rewrite Hlen|by constructor].
Qed.

Lemma pushPost_acc blockResponses posts index page posts' :
  pushPost blockResponses posts index page = Returns posts' ↔
  ∃ post, pushPost blockResponses [] index page = Returns [post]
          ∧ posts' = posts ++ [post].
Proof.
  destruct page as [id|page].
  - simpl. split.
    + intros [= <-]. by exists (partialPost id).
    + by intros (post & [= <-] & ->).
  - rewrite !pushPost_full. split.
    + intros (title & slug & response & Ht & Hs & Hr & ->).
      exists (fullPost page title slug response). split; [|done].
      apply pushPost_full. by exists title, slug, response.
    + intros (post & Hpost & ->).
      apply pushPost_full in Hpost as (title & slug & response & Ht & Hs & Hr & Heq).
      simpl in Heq. injection Heq as ->. by exists title, slug, response.
Qed.

(** The post at position [i] is the one pushed for the entry at
    position [i]. *)
Lemma forEach_pushPost_lookup blockResponses results index posts posts' :
  forEach (pushPost blockResponses) index results posts = Returns posts' →
  ∀ i page, results !! i = Some page →
    ∃ post, posts' !! (length posts + i)%nat = Some post
            ∧ pushPost blockResponses [] (index + i)%nat page = Returns [post].
Proof.
  revert index posts.
  induction results as [|first results IH]; intros index posts; simpl; [done|].
  intros (mid & Hstep & Hrest)%bind_Returns i page Hi.
  apply pushPost_acc in Hstep as (post & Hpost & ->).
  destruct (forEach_pushPost_Returns _ _ _ _ _ Hrest) as (pushed & -> & _).
  destruct i as [|i]; simpl in Hi.
  - injection Hi as <-. exists post. rewrite !Nat.add_0_r. split; [|done].
    rewrite <- !app_assoc. by rewrite lookup_app_r, Nat.sub_diag by lia.
  - destruct (IH _ _ Hrest i page Hi) as (post' & Hlook & Hpush).
    exists post'. rewrite length_app in Hlook. simpl in Hlook.
    replace (length posts + S i)%nat with (length posts + 1 + i)%nat by lia.
    replace (index + S i)%nat with (S index + i)%nat by lia. done.
Qed.

Lemma Promise_all_total {A B : Type} (f : A → Outcome B) (items : list A) :
  Forall (λ item, ∃ v, f item = Returns v) items →
  ∃ values, Promise_all (map f items) = Returns values.
Proof.
  induction 1 as [|item items [v Hv] _ [vs Hvs]]; simpl; [eauto|].
  rewrite Hv, Hvs. eauto.
Qed.

(** ** The detail route *)

(** [shift] gives the first element, and [undefined] on the empty array
    only. *)
Lemma shift_head {A : Type} (l : list A) : (shift l).1 = head l.
Proof. by destruct l. Qed.

Lemma shift_undefined {A : Type} (l : list A) : (shift l).1 = None ↔ l = [].
Proof. by destruct l. Qed.

Lemma pushPath_app paths post :
  SlugPage.pushPath paths post = paths ++ SlugPage.pushPath [] post.
Proof.
  unfold SlugPage.pushPath. repeat case_match; by rewrite ?app_nil_r.
Qed.

Lemma fold_pushPath posts paths :
  fold_left SlugPage.pushPath posts paths
  = paths ++ fold_left SlugPage.pushPath posts [].
Proof.
  revert paths. induction posts as [|post posts IH]; intros paths; simpl.
  - by rewrite app_nil_r.
  - rewrite (IH (SlugPage.pushPath paths post)), (IH (SlugPage.pushPath [] post)).
    by rewrite (pushPath_app paths post), app_assoc.
Qed.

Lemma pushPath_routable post :
  routable post →
  ∃ slug, Post.slug post = Some slug
          ∧ SlugPage.pushPath [] post = [path_of slug].
Proof.
  unfold routable, SlugPage.pushPath, truthy, path_of.
  destruct (Post.slug post) as [slug|]; [|by intros [? _]].
  intros [_ Hne]. exists slug. split; [done|].
  rewrite eqb_neq_false; [done|congruence].
Qed.

Lemma pushPath_not_routable post :
  ¬ routable post → SlugPage.pushPath [] post = [].
Proof.
  unfold routable, SlugPage.pushPath, truthy.
  destruct (Post.slug post) as [slug|]; [|done].
  destruct (String.eqb_spec slug "") as [->|Hne]; [done|].
  intros Hno. exfalso. apply Hno. split; congruence.
Qed.

Lemma fold_pushPath_routable posts :
  fold_left SlugPage.pushPath posts []
  = path_of <$> omap Post.slug (filter routable posts).
Proof.
  induction posts as [|post posts IH]; [done|].
  simpl. rewrite fold_pushPath, IH, filter_cons.
  destruct (decide (routable post)) as [Hyes|Hno].
  - destruct (pushPath_routable post Hyes) as (slug & Hslug & ->).
    simpl. by rewrite Hslug.
  - by rewrite pushPath_not_routable.
Qed.

Lemma routable_slugs_length posts :
  length (omap Post.slug (filter routable posts)) = length (filter routable posts).
Proof.
  induction posts as [|post posts IH]; [done|].
  rewrite filter_cons. destruct (decide (routable post)) as [Hyes|Hno]; [|done].
  destruct (pushPath_routable post Hyes) as (slug & Hslug & _).
  simpl. rewrite Hslug. simpl. f_equal. exact IH.
Qed.

(** ** The listing route *)

Lemma mapResults_Returns results blockResponses posts :
  mapResults results blockResponses = Returns posts →
  length posts = length results
  ∧ Post.id <$> posts = page_id <$> results
  ∧ Forall well_shaped results
  ∧ ∀ i page, results !! i = Some page →
      ∃ post, posts !! i = Some post
              ∧ pushPost blockResponses [] i page = Returns [post].
Proof.
  intros Hmap. pose proof Hmap as Hlook.
  apply forEach_pushPost_Returns in Hmap as (pushed & -> & Hids & Hshape).
  simpl. split; [|split; [done|split; [done|]]].
  - by rewrite <- (length_fmap Post.id), Hids, length_fmap.
  - intros i page Hi.
    apply (forEach_pushPost_lookup _ _ _ _ _ Hlook i page Hi).
Qed.

(** The listing route returns the mapped posts when both remote calls
    succeed and the full pages are well shaped: the block responses are
    then as many as the entries. *)
Lemma getStaticProps_Returns databases_query blocks_children_list database :
  databases_query = Returns database →
  Forall (λ page, ∃ response, blocks_children_list (page_id page) = Returns response)
    (Database.results database) →
  Forall well_shaped (Database.results database) →
  ∃ blockResponses posts,
    Promise_all (map (λ page, blocks_children_list (page_id page))
                     (Database.results database)) = Returns blockResponses
    ∧ mapResults (Database.results database) blockResponses = Returns posts
    ∧ Index.getStaticProps databases_query blocks_children_list
      = Returns {| Index.posts := posts |}.
Proof.
  intros Hquery Hfetch Hshape.
  destruct (Promise_all_total _ _ Hfetch) as [blockResponses Hall].
  destruct (Promise_all_Returns _ _ _ Hall) as [Hlen _].
  destruct (forEach_pushPost_total blockResponses (Database.results database) 0 []
              Hshape) as [posts Hposts].
  { simpl. lia. }
  exists blockResponses, posts. split; [done|]. split; [done|].
  unfold Index.getStaticProps. rewrite Hquery. simpl. rewrite Hall. simpl.
  unfold mapResults. by rewrite Hposts.
Qed.

(** * The properties of the specification *)

(** C1. A raw entry without the 'properties' key is mapped to a post
    that keeps the entry's id, has [null] for title, slug and both
    timestamps, and has no contents, whatever blocks were fetched for
    it; and when the mapper returns, that post sits at the entry's
    position in the post list. *)
Theorem partial_page_post id blockResponses :
  (∀ posts index, ∃ post,
      pushPost blockResponses posts index (PartialPageObjectResponse id)
        = Returns (posts ++ [post])
      ∧ Post.id post = id ∧ Post.title post = None ∧ Post.slug post = None
      ∧ Post.createdTs post = None ∧ Post.lastEditedTs post = None
      ∧ Post.contents post = [])
  ∧ (∀ results posts i,
      mapResults results blockResponses = Returns posts →
      results !! i = Some (PartialPageObjectResponse id) →
      ∃ post, posts !! i = Some post
        ∧ Post.id post = id ∧ Post.title post = None ∧ Post.slug post = None
        ∧ Post.createdTs post = None ∧ Post.lastEditedTs post = None
        ∧ Post.contents post = []).
Proof.
  split.
  - intros posts index. exists (partialPost id). simpl. tauto.
  - intros results posts i Hmap Hi.
    destruct (forEach_pushPost_lookup _ _ _ _ _ Hmap i _ Hi) as (post & Hlook & Hpush).
    simpl in Hlook, Hpush. injection Hpush as <-.
    exists (partialPost id). simpl. tauto.
Qed.

Lemma partial_page_post_witness :
  mapResults sample_results sample_responses = Returns sample_posts
  ∧ sample_results !! 1%nat = Some (PartialPageObjectResponse "page-2")
  ∧ ∃ post, sample_posts !! 1%nat = Some post
      ∧ Post.id post = "page-2" ∧ Post.title post = None ∧ Post.slug post = None
      ∧ Post.createdTs post = None ∧ Post.lastEditedTs post = None
      ∧ Post.contents post = [].
Proof.
  split; [vm_compute; reflexivity|]. split; [reflexivity|].
  apply (proj2 (partial_page_post "page-2" sample_responses) sample_results);
    vm_compute; reflexivity.
Defined.

(** C4. A raw block without a type tag, or with a tag outside
    paragraph, quote, heading_2, heading_3 and code, pushes nothing: the
    contents are the same as if the block were not in the list. *)
Theorem unrecognized_block_skipped block :
  ¬ has_recognized_type block →
  (∀ contents, pushContent contents block = contents)
  ∧ (∀ before after,
      mapContents (before ++ block :: after) = mapContents (before ++ after)).
Proof.
  intros Hno. split.
  - intros contents. by apply pushContent_unrecognized.
  - intros before after.
    rewrite !mapContents_app, mapContents_cons.
    by rewrite pushContent_unrecognized.
Qed.

Lemma unrecognized_block_skipped_witness :
  ¬ has_recognized_type (sample_block "bulleted_list_item" "item" "")
  ∧ ¬ has_recognized_type (PartialBlockObjectResponse "block-9")
  ∧ mapContents [sample_block "paragraph" "one" "";
                 sample_block "bulleted_list_item" "item" "";
                 sample_block "quote" "two" ""]
    = [TextContent paragraph (Some "one"); TextContent quote (Some "two")]
  ∧ pushContent [] (PartialBlockObjectResponse "block-9") = [].
Proof.
  assert (Hitem : ¬ has_recognized_type (sample_block "bulleted_list_item" "item" "")).
  { simpl. rewrite recognized_cases. intros [H|[H|[H|[H|H]]]]; discriminate H. }
  assert (Hpartial : ¬ has_recognized_type (PartialBlockObjectResponse "block-9")).
  { simpl. tauto. }
  split; [exact Hitem|]. split; [exact Hpartial|]. split.
  - exact (eq_trans
             (proj2 (unrecognized_block_skipped _ Hitem)
                [sample_block "paragraph" "one" ""] [sample_block "quote" "two" ""])
             eq_refl).
  - apply (proj1 (unrecognized_block_skipped _ Hpartial)).
Defined.

(** C5. The contents keep the order of the raw block list: when a
    recognized block [a] comes before a recognized block [b], each has
    one element in the contents and the one of [a] comes before the one
    of [b], with the elements of the blocks before, between and after
    them in their places.  The [has_children] flag of a block changes
    nothing, and the post pushed for a full page carries these very
    contents. *)
Theorem contents_keep_block_order before a between b after :
  has_recognized_type a → has_recognized_type b →
  ∃ ca cb,
    pushContent [] a = [ca] ∧ pushContent [] b = [cb]
    ∧ mapContents (before ++ a :: between ++ b :: after)
      = mapContents before ++ ca :: mapContents between ++ cb :: mapContents after
    ∧ (∀ flag,
        mapContents (with_children flag <$> (before ++ a :: between ++ b :: after))
        = mapContents (before ++ a :: between ++ b :: after))
    ∧ (∀ page blockResponses posts index response posts',
        blockResponses !! index = Some response →
        Children.results response = before ++ a :: between ++ b :: after →
        pushPost blockResponses posts index (PageObjectResponse page) = Returns posts' →
        ∃ post, posts' = posts ++ [post]
          ∧ Post.contents post
            = mapContents before ++ ca :: mapContents between ++ cb :: mapContents after).
Proof.
  intros Ha Hb.
  destruct (pushContent_recognized a Ha) as (ca & Hca & _).
  destruct (pushContent_recognized b Hb) as (cb & Hcb & _).
  assert (Hall : mapContents (before ++ a :: between ++ b :: after)
    = mapContents before ++ ca :: mapContents between ++ cb :: mapContents after).
  { rewrite mapContents_app, mapContents_cons, mapContents_app, mapContents_cons.
    by rewrite Hca, Hcb. }
  exists ca, cb. split; [apply Hca|]. split; [apply Hcb|]. split; [exact Hall|].
  split.
  - intros flag. apply mapContents_with_children.
  - intros page blockResponses posts index response posts' Hresp Hblocks Hpush.
    apply pushPost_full in Hpush as (title & slug & response' & _ & _ & Hresp' & ->).
    assert (response' = response) as -> by congruence.
    eexists. split; [done|]. simpl. by rewrite Hblocks.
Qed.

Lemma contents_keep_block_order_witness :
  has_recognized_type (sample_block "heading_2" "Intro" "")
  ∧ has_recognized_type (sample_block "code" "x=1" "python")
  ∧ mapContents
      ([sample_block "paragraph" "zero" ""]
       ++ sample_block "heading_2" "Intro" ""
       :: [sample_block "divider" "" ""; PartialBlockObjectResponse "block-9"]
       ++ sample_block "code" "x=1" "python"
       :: [sample_block "quote" "end" ""])
    = [TextContent paragraph (Some "zero"); TextContent heading_2 (Some "Intro");
       CodeContent (Some "x=1") (Some "python"); TextContent quote (Some "end")].
Proof.
  assert (Ha : has_recognized_type (sample_block "heading_2" "Intro" "")).
  { simpl. apply recognized_cases. tauto. }
  assert (Hb : has_recognized_type (sample_block "code" "x=1" "python")).
  { simpl. apply recognized_cases. tauto. }
  split; [exact Ha|]. split; [exact Hb|].
  destruct (contents_keep_block_order
              [sample_block "paragraph" "zero" ""] _
              [sample_block "divider" "" ""; PartialBlockObjectResponse "block-9"] _
              [sample_block "quote" "end" ""] Ha Hb)
    as (ca & cb & Hca & Hcb & -> & _).
  simpl in Hca, Hcb. injection Hca as <-. injection Hcb as <-. reflexivity.
Defined.

(** C6. For a full page with a 'Name' property, the title is the plain
    text of the first run of that property when its type is "title"
    (of [Hello; World] it is Hello), and [null] when the type is another
    one or the property has no run; the post pushed for the page carries
    this title, and a post is pushed as soon as the page also has its
    'Slug' property and its block response. *)
Theorem title_is_first_run_of_Name page name :
  Page.properties page !! "Name" = Some name →
  ∃ title,
    readTitle page = Returns title
    ∧ (Property.type name = "title" →
         title = plain_text <$> head (Property.title name))
    ∧ (Property.type name ≠ "title" ∨ Property.title name = [] → title = None)
    ∧ (∀ blockResponses posts index posts',
         pushPost blockResponses posts index (PageObjectResponse page) = Returns posts' →
         ∃ post, posts' = posts ++ [post] ∧ Post.title post = title)
    ∧ (∀ blockResponses posts index,
         is_Some (Page.properties page !! "Slug") →
         is_Some (blockResponses !! index) →
         ∃ post, pushPost blockResponses posts index (PageObjectResponse page)
                 = Returns (posts ++ [post])
                 ∧ Post.title post = title).
Proof.
  intros Hname. pose proof (readTitle_present page name Hname) as Hread.
  eexists. split; [exact Hread|]. split; [|split; [|split]].
  - intros ->. simpl. by destruct (Property.title name).
  - intros [Hne| ->].
    + by rewrite eqb_neq_false.
    + by case_match.
  - intros blockResponses posts index posts' Hpush.
    apply pushPost_full in Hpush as (title & slug & response & Ht & _ & _ & ->).
    rewrite Hread in Ht. injection Ht as <-. by eexists.
  - intros blockResponses posts index [prop Hprop] [response Hresp].
    pose proof (readSlug_present page prop Hprop) as Hslug.
    eexists (fullPost page _ _ response). split; [|reflexivity].
    apply pushPost_full. eexists _, _, response.
    split; [exact Hread|]. split; [exact Hslug|]. by split.
Qed.

Lemma title_is_first_run_of_Name_witness :
  Page.properties hello_page !! "Name" = Some sample_name
  ∧ Property.title sample_name = [run "Hello"; run "World"]
  ∧ readTitle hello_page = Returns (Some "Hello")
  ∧ ∃ post, pushPost sample_responses [] 0 (PageObjectResponse hello_page)
            = Returns [post]
            ∧ Post.title post = Some "Hello".
Proof.
  assert (Hname : Page.properties hello_page !! "Name" = Some sample_name)
    by (vm_compute; reflexivity).
  split; [exact Hname|]. split; [reflexivity|].
  destruct (title_is_first_run_of_Name hello_page sample_name Hname)
    as (title & Hread & Htitle & _ & _ & Hpush).
  rewrite (Htitle eq_refl) in Hread, Hpush.
  split; [exact Hread|].
  apply (Hpush sample_responses [] 0%nat).
  - exists (sample_slug "hello"). vm_compute. reflexivity.
  - exists (sample_response [sample_block "paragraph" "one" ""]). reflexivity.
Defined.



(** C9. A raw block of a recognized type whose rich text has no run
    still pushes one element, with the text [null]: the contents of a
    list with the block are one longer than without it. *)
Theorem empty_rich_text_still_mapped b :
  recognized (Block.type b) →
  Block.rich_text (Block.content b) = [] →
  ∃ c, content_text c = None
    ∧ (∀ contents, pushContent contents (BlockObjectResponse b) = contents ++ [c])
    ∧ (∀ before after,
        mapContents (before ++ BlockObjectResponse b :: after)
        = mapContents before ++ c :: mapContents after)
    ∧ (∀ before after,
        length (mapContents (before ++ BlockObjectResponse b :: after))
        = S (length (mapContents (before ++ after)))).
Proof.
  intros Hrec Hempty.
  destruct (pushContent_recognized (BlockObjectResponse b) Hrec) as (c & Hc & Htext).
  rewrite Hempty in Htext. simpl in Htext.
  assert (Hin : ∀ before after,
    mapContents (before ++ BlockObjectResponse b :: after)
    = mapContents before ++ c :: mapContents after).
  { intros before after. by rewrite mapContents_app, mapContents_cons, Hc. }
  exists c. split; [exact Htext|]. split; [exact Hc|]. split; [exact Hin|].
  intros before after. rewrite Hin, mapContents_app, !length_app. simpl. lia.
Qed.

Lemma empty_rich_text_still_mapped_witness :
  recognized "heading_3"
  ∧ mapContents [sample_block "paragraph" "one" ""; empty_heading;
                 sample_block "quote" "two" ""]
    = [TextContent paragraph (Some "one"); TextContent heading_3 None;
       TextContent quote (Some "two")].
Proof.
  assert (Hrec : recognized "heading_3") by (apply recognized_cases; tauto).
  split; [exact Hrec|].
  destruct (empty_rich_text_still_mapped
    {| Block.id := "block-2"; Block.type := "heading_3"; Block.has_children := false;
       Block.content := {| Block.rich_text := []; Block.language := "" |} |}
    Hrec eq_refl) as (c & _ & Hc & _ & _).
  specialize (Hc []). simpl in Hc. injection Hc as <-. reflexivity.
Defined.

(** C10, as stated, fails: a full entry that has its 'Name' but no
    'Slug' property makes the mapper throw, so no post list comes out
    of a query result of one entry. *)
Lemma one_post_per_entry_counterexample :
  length [sample_response []] = length [PageObjectResponse page_without_slug]
  ∧ mapResults [PageObjectResponse page_without_slug] [sample_response []]
    = Throws TypeError
  ∧ ¬ ∃ posts,
        mapResults [PageObjectResponse page_without_slug] [sample_response []]
          = Returns posts
        ∧ length posts = length [PageObjectResponse page_without_slug].
Proof.
  split; [reflexivity|].
  assert (Hthrow : mapResults [PageObjectResponse page_without_slug]
                     [sample_response []] = Throws TypeError)
    by (vm_compute; reflexivity).
  split; [exact Hthrow|].
  intros (posts & Hposts & _). rewrite Hthrow in Hposts. discriminate Hposts.
Qed.

(** C10, amended. When every full entry of the query result has its
    'Name' and 'Slug' properties, and one block response was fetched per
    entry, the mapper returns one post per entry, partial entries
    included, in the order of the query result: as many posts as
    entries, the post at each position being the one pushed for the
    entry at that position and carrying its id. *)
Theorem one_post_per_entry results blockResponses :
  Forall well_shaped results →
  length blockResponses = length results →
  ∃ posts,
    mapResults results blockResponses = Returns posts
    ∧ length posts = length results
    ∧ Post.id <$> posts = page_id <$> results
    ∧ ∀ i page, results !! i = Some page →
        ∃ post, posts !! i = Some post
                ∧ Post.id post = page_id page
                ∧ pushPost blockResponses [] i page = Returns [post].
Proof.
  intros Hshape Hlen.
  destruct (forEach_pushPost_total blockResponses results 0 [] Hshape)
    as [posts Hposts]; [simpl; lia|].
  exists posts. split; [exact Hposts|].
  destruct (mapResults_Returns _ _ _ Hposts) as (Hcount & Hids & _ & Hlook).
  split; [exact Hcount|]. split; [exact Hids|].
  intros i page Hi. destruct (Hlook i page Hi) as (post & Hpost & Hpush).
  exists post. split; [exact Hpost|]. split; [|exact Hpush].
  apply pushPost_Returns in Hpush as (post' & Heq & Hid & _).
  simpl in Heq. by injection Heq as <-.
Qed.

Lemma one_post_per_entry_witness :
  Forall well_shaped sample_results
  ∧ length sample_responses = length sample_results
  ∧ ∃ posts, mapResults sample_results sample_responses = Returns posts
             ∧ length posts = 2%nat
             ∧ Post.id <$> posts = ["page-1"; "page-2"].
Proof.
  assert (Hshape : Forall well_shaped sample_results).
  { repeat constructor; simpl; eexists; vm_compute; reflexivity. }
  split; [exact Hshape|]. split; [reflexivity|].
  destruct (one_post_per_entry sample_results sample_responses Hshape eq_refl)
    as (posts & Hposts & Hcount & Hids & _).
  exists posts. split; [exact Hposts|]. split; [exact Hcount|exact Hids].
Defined.

(** C2, as stated, fails: a post whose slug is the empty string, as the
    mapper makes it from a 'Slug' run without text, has a slug that is
    not [null] and gets no path. *)
Lemma paths_for_routable_slugs_counterexample :
  mapResults [PageObjectResponse empty_slug_page] [sample_response []]
    = Returns [empty_slug_post]
  ∧ Post.slug empty_slug_post ≠ None
  ∧ SlugPage.getStaticPaths (λ _, Returns [empty_slug_post])
    = Returns {| SlugPage.paths := []; SlugPage.fallback := "blocking" |}
  ∧ length ([] : list SlugPage.Path)
    ≠ length (filter (λ post, Post.slug post ≠ None) [empty_slug_post]).
Proof.
  split; [vm_compute; reflexivity|]. split; [discriminate|].
  split; [reflexivity|]. vm_compute. discriminate.
Qed.

(** C2, amended. Static-path enumeration gives one path per post whose
    slug is neither [null] nor the empty string, carrying that slug, in
    the order of the posts; a post whose slug is [null] or empty gets no
    path; so there are as many paths as posts with such a slug. *)
Theorem paths_for_routable_slugs getPosts posts :
  getPosts None = Returns posts →
  ∃ result,
    SlugPage.getStaticPaths getPosts = Returns result
    ∧ SlugPage.fallback result = "blocking"
    ∧ SlugPage.paths result = path_of <$> omap Post.slug (filter routable posts)
    ∧ length (SlugPage.paths result) = length (filter routable posts)
    ∧ (∀ post paths, Post.slug post = None ∨ Post.slug post = Some "" →
         SlugPage.pushPath paths post = paths)
    ∧ (∀ post paths slug, Post.slug post = Some slug → slug ≠ "" →
         SlugPage.pushPath paths post = paths ++ [path_of slug]).
Proof.
  intros Hposts. unfold SlugPage.getStaticPaths. rewrite Hposts. simpl.
  eexists. split; [reflexivity|]. simpl. split; [reflexivity|].
  split; [apply fold_pushPath_routable|]. split; [|split].
  - by rewrite fold_pushPath_routable, length_fmap, routable_slugs_length.
  - intros post paths Hslug. rewrite pushPath_app, pushPath_not_routable.
    + by rewrite app_nil_r.
    + unfold routable. intros [Hnone Hempty]. by destruct Hslug.
  - intros post paths slug Hslug Hne. rewrite pushPath_app.
    destruct (pushPath_routable post) as (slug' & Hslug' & ->).
    + unfold routable. rewrite Hslug. split; congruence.
    + congruence.
Qed.

Lemma paths_for_routable_slugs_witness :
  ∃ result,
    SlugPage.getStaticPaths (λ _, Returns [hello_post; partialPost "page-2"; empty_slug_post])
      = Returns result
    ∧ SlugPage.paths result = [path_of "hello"].
Proof.
  destruct (paths_for_routable_slugs
              (λ _, Returns [hello_post; partialPost "page-2"; empty_slug_post])
              [hello_post; partialPost "page-2"; empty_slug_post] eq_refl)
    as (result & Hresult & _ & Hpaths & _).
  exists result. split; [exact Hresult|]. rewrite Hpaths. vm_compute. reflexivity.
Defined.

(** C3. The page-generation function of the detail route returns the
    redirect to the not-found path "/404" when the route parameters are
    absent and when the fetch for the given slug returns no post;
    otherwise, once the contents of the first fetched post are fetched,
    it returns no redirect and that post: the id, title, slug and both
    timestamps of the first fetched post, with the fetched contents in
    the place of the ones it came with.  A returned result is a
    redirect in the first two cases only. *)
Theorem detail_route_outcomes getPosts getPostContents context :
  SlugPage.redirect SlugPage.notFoundProps
    = Some {| SlugPage.destination := "/404" |}
  ∧ SlugPage.post (SlugPage.props SlugPage.notFoundProps) = None
  ∧ (SlugPage.params context = None →
       SlugPage.getStaticProps getPosts getPostContents context
       = Returns SlugPage.notFoundProps)
  ∧ (∀ params, SlugPage.params context = Some params →
       getPosts (Some (SlugPage.slug params)) = Returns [] →
       SlugPage.getStaticProps getPosts getPostContents context
       = Returns SlugPage.notFoundProps)
  ∧ (∀ params first rest contents,
       SlugPage.params context = Some params →
       getPosts (Some (SlugPage.slug params)) = Returns (first :: rest) →
       getPostContents first = Returns contents →
       SlugPage.getStaticProps getPosts getPostContents context
       = Returns {| SlugPage.props :=
                      {| SlugPage.post :=
                           Some {| Post.id := Post.id first;
                                   Post.title := Post.title first;
                                   Post.slug := Post.slug first;
                                   Post.createdTs := Post.createdTs first;
                                   Post.lastEditedTs := Post.lastEditedTs first;
                                   Post.contents := contents |} |};
                    SlugPage.redirect := None |})
  ∧ (∀ result,
       SlugPage.getStaticProps getPosts getPostContents context = Returns result →
       (SlugPage.redirect result ≠ None ↔
        SlugPage.params context = None
        ∨ ∃ params, SlugPage.params context = Some params
                    ∧ getPosts (Some (SlugPage.slug params)) = Returns [])).
Proof.
  unfold SlugPage.getStaticProps.
  split; [reflexivity|]. split; [reflexivity|].
  split; [by intros ->|]. split; [by intros params -> ->|].
  split; [intros params first rest contents -> -> Hc; simpl; by rewrite Hc|].
  intros result. destruct (SlugPage.params context) as [params|].
  - destruct (getPosts (Some (SlugPage.slug params))) as [[|first rest]|e] eqn:Hfetch;
      simpl.
    + intros [= <-]. split; [|done]. intros _. right. by exists params.
    + destruct (getPostContents first) as [contents|e]; simpl; [|done].
      intros [= <-]. simpl. split; [done|].
      intros [?|(params' & [= <-] & ?)]; [done|congruence].
    + done.
  - intros [= <-]. split; [eauto|done].
Qed.

Lemma detail_route_outcomes_witness :
  SlugPage.getStaticProps sample_getPosts sample_getPostContents
    (sample_context "hello")
  = Returns {| SlugPage.props :=
                 {| SlugPage.post :=
                      Some {| Post.id := "page-1"; Post.title := Some "Hello";
                              Post.slug := Some "hello";
                              Post.createdTs := Some "2023-05-01T09:00:00.000Z";
                              Post.lastEditedTs := Some "2023-05-02T10:30:00.000Z";
                              Post.contents := [TextContent quote (Some "fetched")] |} |};
               SlugPage.redirect := None |}
  ∧ SlugPage.getStaticProps sample_getPosts sample_getPostContents
      (sample_context "other")
    = Returns SlugPage.notFoundProps.
Proof.
  split.
  - apply (proj1 (proj2 (proj2 (proj2 (proj2
             (detail_route_outcomes sample_getPosts sample_getPostContents
                (sample_context "hello"))))))
             {| SlugPage.slug := "hello" |} hello_post [] _ eq_refl);
      vm_compute; reflexivity.
  - apply (proj1 (proj2 (proj2 (proj2
             (detail_route_outcomes sample_getPosts sample_getPostContents
                (sample_context "other")))))
             {| SlugPage.slug := "other" |} eq_refl).
    vm_compute. reflexivity.
Defined.

(** * Further properties of the code *)

(** ** The mapper, [getStaticProps] of [src/pages/index.tsx] *)

Lemma pushPost_Throws blockResponses posts index page e :
  pushPost blockResponses posts index page = Throws e → e = TypeError.
Proof.
  destruct page as [id|page]; [done|].
  unfold pushPost, readTitle, readSlug.
  destruct (Page.properties page !! "Name") as [name|]; simpl; [|congruence].
  destruct (String.eqb (Property.type name) "title"); simpl;
    (destruct (Page.properties page !! "Slug") as [prop|]; simpl; [|congruence]);
    (destruct (String.eqb (Property.type prop) "rich_text"); simpl);
    (destruct (blockResponses !! index); simpl; congruence).
Qed.

Lemma forEach_pushPost_Throws blockResponses results index posts e :
  forEach (pushPost blockResponses) index results posts = Throws e → e = TypeError.
Proof.
  revert index posts.
  induction results as [|page results IH]; intros index posts; simpl; [done|].
  destruct (pushPost blockResponses posts index page) as [mid|e'] eqn:Hstep; simpl.
  - apply IH.
  - intros [= <-]. by apply pushPost_Throws in Hstep.
Qed.

Lemma mapResults_not_Returns results blockResponses :
  (∀ posts, mapResults results blockResponses ≠ Returns posts) →
  mapResults results blockResponses = Throws TypeError.
Proof.
  intros Hno.
  destruct (mapResults results blockResponses) as [posts|e] eqn:Hmap.
  - by destruct (Hno posts).
  - by rewrite (forEach_pushPost_Throws _ _ _ _ _ Hmap).
Qed.

(** X1. For a full page with a 'Slug' property, the slug is the plain
    text of the first run of that property when its type is
    "rich_text", and [null] when the type is another one or the
    property has no run; every post pushed for the page carries this
    slug. *)
Theorem slug_is_first_run_of_Slug page prop :
  Page.properties page !! "Slug" = Some prop →
  ∃ slug,
    readSlug page = Returns slug
    ∧ (Property.type prop = "rich_text" →
         slug = plain_text <$> head (Property.rich_text prop))
    ∧ (Property.type prop ≠ "rich_text" ∨ Property.rich_text prop = [] → slug = None)
    ∧ (∀ blockResponses posts index posts',
         pushPost blockResponses posts index (PageObjectResponse page) = Returns posts' →
         ∃ post, posts' = posts ++ [post] ∧ Post.slug post = slug).
Proof.
  intros Hprop. pose proof (readSlug_present page prop Hprop) as Hread.
  eexists. split; [exact Hread|]. split; [|split].
  - intros ->. simpl. by destruct (Property.rich_text prop).
  - intros [Hne| ->].
    + by rewrite eqb_neq_false.
    + by case_match.
  - intros blockResponses posts index posts' Hpush.
    apply pushPost_full in Hpush as (title & slug & response & _ & Hs & _ & ->).
    rewrite Hread in Hs. injection Hs as <-. by eexists.
Qed.

Lemma slug_is_first_run_of_Slug_witness :
  Page.properties hello_page !! "Slug" = Some (sample_slug "hello")
  ∧ readSlug hello_page = Returns (Some "hello").
Proof.
  assert (Hprop : Page.properties hello_page !! "Slug" = Some (sample_slug "hello"))
    by (vm_compute; reflexivity).
  split; [exact Hprop|].
  destruct (slug_is_first_run_of_Slug hello_page _ Hprop)
    as (slug & Hread & Hslug & _).
  by rewrite (Hslug eq_refl) in Hread.
Defined.

(** X2. In the post list the mapper returns, the post of a full entry
    carries the entry's creation and last-edit times as they are, and
    the post of a partial entry has [null] for both: a timestamp is
    [null] exactly for partial entries. *)
Theorem timestamps_copied_verbatim results blockResponses posts i page post :
  mapResults results blockResponses = Returns posts →
  results !! i = Some page →
  posts !! i = Some post →
  match page with
  | PartialPageObjectResponse _ =>
      Post.createdTs post = None ∧ Post.lastEditedTs post = None
  | PageObjectResponse p =>
      Post.createdTs post = Some (Page.created_time p)
      ∧ Post.lastEditedTs post = Some (Page.last_edited_time p)
  end.
Proof.
  intros Hmap Hpage Hpost.
  destruct (forEach_pushPost_lookup _ _ _ _ _ Hmap i page Hpage)
    as (post' & Hpost' & Hpush).
  simpl in Hpost', Hpush. assert (post' = post) as -> by congruence.
  destruct page as [id|p].
  - simpl in Hpush. by injection Hpush as <-.
  - apply pushPost_full in Hpush as (title & slug & response & _ & _ & _ & Heq).
    simpl in Heq. by injection Heq as ->.
Qed.

Lemma timestamps_copied_verbatim_witness :
  Post.createdTs hello_post = Some "2023-05-01T09:00:00.000Z"
  ∧ Post.lastEditedTs hello_post = Some "2023-05-02T10:30:00.000Z".
Proof.
  apply (timestamps_copied_verbatim sample_results sample_responses sample_posts
           0 (PageObjectResponse hello_page) hello_post);
    vm_compute; reflexivity.
Defined.

(** X3. The mapper throws nothing but a TypeError, and it throws one,
    returning no post at all, as soon as one full entry of the query
    result lacks its 'Name' or its 'Slug' property, or has no block
    response at its index. *)
Theorem mapper_throws_TypeError results blockResponses :
  (∀ e, mapResults results blockResponses = Throws e → e = TypeError)
  ∧ (∀ page, page ∈ results → ¬ well_shaped page →
       mapResults results blockResponses = Throws TypeError)
  ∧ (∀ i p, results !! i = Some (PageObjectResponse p) →
       blockResponses !! i = None →
       mapResults results blockResponses = Throws TypeError).
Proof.
  split; [|split].
  - intros e. apply forEach_pushPost_Throws.
  - intros page Hin Hbad. apply mapResults_not_Returns. intros posts Hmap.
    apply mapResults_Returns in Hmap as (_ & _ & Hshape & _).
    rewrite Forall_forall in Hshape. by apply Hbad, Hshape.
  - intros i p Hi Hnone. apply mapResults_not_Returns. intros posts Hmap.
    destruct (forEach_pushPost_lookup _ _ _ _ _ Hmap i _ Hi) as (post & _ & Hpush).
    apply pushPost_full in Hpush as (? & ? & ? & _ & _ & Hresp & _).
    simpl in Hresp. congruence.
Qed.

Lemma mapper_throws_TypeError_witness :
  mapResults [PartialPageObjectResponse "page-2"; PageObjectResponse page_without_slug]
    [sample_response []; sample_response []] = Throws TypeError
  ∧ mapResults [PageObjectResponse hello_page] [] = Throws TypeError.
Proof.
  split.
  - apply (proj1 (proj2 (mapper_throws_TypeError _ _))
             (PageObjectResponse page_without_slug)).
    + apply list_elem_of_In. simpl. tauto.
    + intros [_ [prop Hprop]]. vm_compute in Hprop. discriminate Hprop.
  - apply (proj2 (proj2 (mapper_throws_TypeError _ _)) 0%nat hello_page);
      reflexivity.
Defined.

Lemma getStaticProps_inv databases_query blocks_children_list props :
  Index.getStaticProps databases_query blocks_children_list = Returns props →
  ∃ database blockResponses,
    databases_query = Returns database
    ∧ Promise_all (map (λ page, blocks_children_list (page_id page))
                       (Database.results database)) = Returns blockResponses
    ∧ mapResults (Database.results database) blockResponses
      = Returns (Index.posts props).
Proof.
  unfold Index.getStaticProps.
  intros (database & Hquery & Hrest)%bind_Returns.
  apply bind_Returns in Hrest as (blockResponses & Hall & Hrest).
  apply bind_Returns in Hrest as (posts & Hmap & [= <-]).
  by exists database, blockResponses.
Qed.

Lemma Promise_all_Throws {A B : Type} (f : A → Outcome B) (items : list A) item e :
  item ∈ items → f item = Throws e →
  ∃ e', Promise_all (map f items) = Throws e'.
Proof.
  intros Hin Hitem.
  induction items as [|first items IH]; [by apply elem_of_nil in Hin|].
  simpl. apply elem_of_cons in Hin as [<-|Hin].
  - rewrite Hitem. eauto.
  - destruct (IH Hin) as [e' ->]. destruct (f first); eauto.
Qed.

Lemma Promise_all_Throws_inv {A B : Type} (f : A → Outcome B) (items : list A) e :
  Promise_all (map f items) = Throws e →
  ∃ item, item ∈ items ∧ f item = Throws e.
Proof.
  induction items as [|first items IH]; simpl; [done|].
  destruct (f first) as [v|e'] eqn:Hfirst.
  - destruct (Promise_all (map f items)) as [vs|e'']; [done|].
    intros [= <-]. destruct (IH eq_refl) as (item & Hin & Hitem).
    exists item. split; [by right|done].
  - intros [= <-]. exists first. split; [left|done].
Qed.

(** X4. When the listing route returns, the post at each position of a
    full entry has that entry's id and the contents mapped from the
    block list that was fetched for that very id: block responses are
    never attached to another entry. *)
Theorem contents_come_from_own_blocks databases_query blocks_children_list props :
  Index.getStaticProps databases_query blocks_children_list = Returns props →
  ∃ database,
    databases_query = Returns database
    ∧ length (Index.posts props) = length (Database.results database)
    ∧ ∀ i p, Database.results database !! i = Some (PageObjectResponse p) →
        ∃ response post,
          blocks_children_list (Page.id p) = Returns response
          ∧ Index.posts props !! i = Some post
          ∧ Post.id post = Page.id p
          ∧ Post.contents post = mapContents (Children.results response).
Proof.
  intros (database & blockResponses & Hquery & Hall & Hmap)%getStaticProps_inv.
  exists database. split; [exact Hquery|].
  destruct (mapResults_Returns _ _ _ Hmap) as (Hlen & _ & _ & Hlook).
  split; [exact Hlen|]. intros i p Hi.
  destruct (Hlook i _ Hi) as (post & Hpost & Hpush).
  apply pushPost_full in Hpush as (title & slug & response & _ & _ & Hresp & Heq).
  simpl in Heq. injection Heq as ->.
  destruct (Promise_all_Returns _ _ _ Hall) as [_ Hfetched].
  destruct (Forall2_lookup_l _ _ _ _ _ Hfetched Hi) as (response' & Hresp' & Hcall).
  simpl in Hcall. assert (response' = response) as -> by congruence.
  by exists response, (fullPost p title slug response).
Qed.

Lemma contents_come_from_own_blocks_witness :
  Index.getStaticProps sample_query sample_children
    = Returns {| Index.posts := sample_posts |}
  ∧ ∃ response post,
      sample_children "page-1" = Returns response
      ∧ sample_posts !! 0%nat = Some post
      ∧ Post.contents post = mapContents (Children.results response).
Proof.
  assert (Hrun : Index.getStaticProps sample_query sample_children
                 = Returns {| Index.posts := sample_posts |})
    by (vm_compute; reflexivity).
  split; [exact Hrun|].
  destruct (contents_come_from_own_blocks _ _ _ Hrun) as (database & Hq & _ & Hlook).
  injection Hq as <-.
  destruct (Hlook 0%nat hello_page eq_refl) as (response & post & Hc & Hp & _ & Hcs).
  by exists response, post.
Defined.

(** X5. A failure of a remote call fails the listing route: when the
    query rejects, [getStaticProps] throws the same exception, and when
    the block fetch of any entry of the query result rejects, partial
    entries included, it throws as well and returns no posts. *)
Theorem remote_failure_fails_listing databases_query blocks_children_list :
  (∀ e, databases_query = Throws e →
     Index.getStaticProps databases_query blocks_children_list = Throws e)
  ∧ (∀ database page e,
       databases_query = Returns database →
       page ∈ Database.results database →
       blocks_children_list (page_id page) = Throws e →
       ∃ e', Index.getStaticProps databases_query blocks_children_list = Throws e').
Proof.
  unfold Index.getStaticProps. split.
  - by intros e ->.
  - intros database page e -> Hin Hfail. simpl.
    destruct (Promise_all_Throws (λ page, blocks_children_list (page_id page))
                _ page e Hin Hfail) as [e' ->].
    by exists e'.
Qed.

Lemma remote_failure_fails_listing_witness :
  ∃ e, Index.getStaticProps sample_query failing_children = Throws e.
Proof.
  apply (proj2 (remote_failure_fails_listing sample_query failing_children)
           _ (PartialPageObjectResponse "page-2") Rejected eq_refl).
  - apply list_elem_of_In. simpl. tauto.
  - reflexivity.
Defined.

Lemma forEach_ext {A St : Type} (f g : St → nat → A → Outcome St) items :
  (∀ s index item, f s index item = g s index item) →
  ∀ index s, forEach f index items s = forEach g index items s.
Proof.
  intros Hext. induction items as [|item items IH]; intros index s; simpl; [done|].
  rewrite Hext. destruct (g s index item); simpl; [apply IH|done].
Qed.

Lemma Promise_all_set_cursor {A : Type} more cursor (f : A → Outcome Children.t) ids :
  Promise_all (map (λ id, set_cursor_children more cursor (f id)) ids)
  = match Promise_all (map f ids) with
    | Returns responses =>
        Returns ((λ r, {| Children.results := Children.results r;
                          Children.has_more := more;
                          Children.next_cursor := cursor |}) <$> responses)
    | Throws e => Throws e
    end.
Proof.
  induction ids as [|id ids IH]; simpl; [done|].
  rewrite IH. destruct (f id) as [r|e]; simpl; [|done].
  by destruct (Promise_all (map f ids)).
Qed.

(** X6. The pagination fields of the remote responses are never read:
    whatever [has_more] and [next_cursor] the query response and the
    block responses carry, the listing route gives the same result, so
    only the first page of entries and of blocks is ever mapped. *)
Theorem pagination_fields_ignored
    databases_query blocks_children_list more cursor more' cursor' :
  Index.getStaticProps
    (set_cursor_database more cursor databases_query)
    (λ block_id, set_cursor_children more' cursor' (blocks_children_list block_id))
  = Index.getStaticProps databases_query blocks_children_list.
Proof.
  unfold Index.getStaticProps.
  destruct databases_query as [database|e]; simpl; [|done].
  pose proof (Promise_all_set_cursor more' cursor'
                (λ page, blocks_children_list (page_id page))
                (Database.results database)) as Hall.
  simpl in Hall. rewrite Hall. clear Hall.
  destruct (Promise_all _) as [responses|e]; simpl; [|done].
  unfold mapResults.
  rewrite (forEach_ext _ (pushPost responses)); [done|].
  intros posts index [id|page]; simpl; [done|].
  rewrite list_lookup_fmap. by destruct (responses !! index).
Qed.

(** ** The block mapper, lines 98-137 *)

Lemma pushContent_elem c b :
  c ∈ pushContent [] (BlockObjectResponse b) →
  content_type c = Block.type b
  ∧ content_text c = first_plain_text (Block.rich_text (Block.content b))
  ∧ content_language c
    = (if decide (Block.type b = "code")
       then Some (Some (Block.language (Block.content b))) else None).
Proof.
  simpl.
  destruct (String.eqb_spec (Block.type b) "paragraph") as [Hp|_];
    [rewrite Hp; by intros ->%list_elem_of_singleton|].
  destruct (String.eqb_spec (Block.type b) "heading_2") as [Hp|_];
    [rewrite Hp; by intros ->%list_elem_of_singleton|].
  destruct (String.eqb_spec (Block.type b) "heading_3") as [Hp|_];
    [rewrite Hp; by intros ->%list_elem_of_singleton|].
  destruct (String.eqb_spec (Block.type b) "quote") as [Hp|_];
    [rewrite Hp; by intros ->%list_elem_of_singleton|].
  destruct (String.eqb_spec (Block.type b) "code") as [Hp|_];
    [rewrite Hp; by intros ->%list_elem_of_singleton|].
  by intros ?%elem_of_nil.
Qed.

Lemma pushContent_partial id : pushContent [] (PartialBlockObjectResponse id) = [].
Proof. done. Qed.

(** X7. The contents mirror the recognized blocks: every element of the
    contents has the type tag and the first-run text of a block of the
    list, and a language, never [null], if and only if that block is a
    "code" block; and every block of the list with a recognized tag has
    such an element. *)
Theorem contents_mirror_recognized_blocks blocks :
  (∀ c, c ∈ mapContents blocks →
     ∃ b, BlockObjectResponse b ∈ blocks
       ∧ content_type c = Block.type b
       ∧ content_text c = first_plain_text (Block.rich_text (Block.content b))
       ∧ content_language c
         = (if decide (Block.type b = "code")
            then Some (Some (Block.language (Block.content b))) else None))
  ∧ (∀ b, BlockObjectResponse b ∈ blocks → recognized (Block.type b) →
     ∃ c, c ∈ mapContents blocks
       ∧ content_type c = Block.type b
       ∧ content_text c = first_plain_text (Block.rich_text (Block.content b))
       ∧ content_language c
         = (if decide (Block.type b = "code")
            then Some (Some (Block.language (Block.content b))) else None)).
Proof.
  split.
  - intros c. induction blocks as [|block blocks IH]; [by intros ?%elem_of_nil|].
    rewrite mapContents_cons, elem_of_app. intros [Hc|Hc].
    + destruct block as [id|b]; [by apply elem_of_nil in Hc|].
      exists b. split; [left|by apply pushContent_elem].
    + destruct (IH Hc) as (b & Hb & Hrest). exists b. split; [by right|done].
  - intros b Hin Hrec.
    destruct (pushContent_recognized (BlockObjectResponse b) Hrec) as (c & Hc & _).
    specialize (Hc []). simpl app in Hc.
    exists c. split.
    + induction blocks as [|block blocks IH]; [by apply elem_of_nil in Hin|].
      rewrite mapContents_cons, elem_of_app.
      apply elem_of_cons in Hin as [<-|Hin].
      * left. rewrite Hc. left.
      * right. by apply IH.
    + apply pushContent_elem. rewrite Hc. left.
Qed.

Lemma contents_mirror_recognized_blocks_witness :
  ∃ c, c ∈ mapContents [sample_block "divider" "" ""; sample_block "code" "x=1" "python"]
    ∧ content_type c = "code" ∧ content_text c = Some "x=1"
    ∧ content_language c = Some (Some "python").
Proof.
  destruct (proj2 (contents_mirror_recognized_blocks
                     [sample_block "divider" "" ""; sample_block "code" "x=1" "python"])
              {| Block.id := "block-1"; Block.type := "code"; Block.has_children := false;
                 Block.content := {| Block.rich_text := [run "x=1"];
                                     Block.language := "python" |} |})
    as (c & Hin & Htype & Htext & Hlang).
  - apply list_elem_of_In. simpl. tauto.
  - apply recognized_cases. tauto.
  - by exists c.
Defined.

(** X8. The contents have one element per block with a recognized
    type tag: they are as many as those blocks, never more than the
    blocks of the list, and the same as the contents of the list with
    all other blocks removed. *)
Theorem contents_count blocks :
  length (mapContents blocks) = length (filter has_recognized_type blocks)
  ∧ (length (mapContents blocks) ≤ length blocks)%nat
  ∧ mapContents (filter has_recognized_type blocks) = mapContents blocks.
Proof.
  split; [apply mapContents_length|]. split.
  - rewrite mapContents_length. apply length_filter.
  - induction blocks as [|block blocks IH]; [done|].
    rewrite filter_cons.
    destruct (decide (has_recognized_type block)) as [Hyes|Hno].
    + by rewrite !mapContents_cons, IH.
    + by rewrite mapContents_cons, pushContent_unrecognized.
Qed.

(** X9. Only the first run of a block's rich text is read: dropping the
    runs after the first one from every block changes nothing in the
    contents. *)
Theorem later_runs_ignored blocks :
  mapContents (first_run_only <$> blocks) = mapContents blocks.
Proof.
  induction blocks as [|block blocks IH]; [done|].
  rewrite fmap_cons, !mapContents_cons, IH. f_equal.
  destruct block as [id|b]; [done|].
  simpl. unfold first_plain_text.
  by destruct (Block.rich_text (Block.content b)).
Qed.

(** ** The page component [Home], lines 155-217 *)

Lemma content_key_inj (post_id : string) (i j : nat) :
  post_id +:+ "_" +:+ pretty i = post_id +:+ "_" +:+ pretty j → i = j.
Proof.
  intros Heq. apply (inj (String.app post_id)) in Heq.
  apply (inj (String.app "_")) in Heq. by apply (inj pretty) in Heq.
Qed.

Lemma renderContent_key styles post_id index content :
  element_key (Home.renderContent styles post_id index content)
  = Some (post_id +:+ "_" +:+ pretty index).
Proof. by destruct content as [[] text|text language]. Qed.

Lemma string_app_space_inj (s t : string) : s +:+ " " = t +:+ " " → s = t.
Proof.
  revert t. induction s as [|a s IH]; intros [|b t]; simpl; intros Heq.
  - done.
  - injection Heq as _ Heq. by destruct t.
  - injection Heq as _ Heq. by destruct s.
  - injection Heq as -> Heq. f_equal. by apply IH.
Qed.

(** X10. The elements rendered for the contents of a post are as many
    as the contents, each has the key made of the post's id and its
    index, and no two of them have the same key. *)
Theorem content_keys_distinct styles dayjs_format post :
  ∃ elements,
    element_children (Home.renderPost styles dayjs_format post) !! 2%nat
      = Some (Tag "div" None None elements)
    ∧ length elements = length (Post.contents post)
    ∧ (∀ i element, elements !! i = Some element →
         element_key element = Some (Post.id post +:+ "_" +:+ pretty i))
    ∧ NoDup (element_key <$> elements).
Proof.
  eexists. split; [reflexivity|]. split; [apply length_imap|]. split.
  - intros i element. rewrite list_lookup_imap.
    destruct (Post.contents post !! i) as [content|]; simpl; [|done].
    intros [= <-]. apply renderContent_key.
  - rewrite fmap_imap.
    rewrite (imap_ext _ (λ i _, Some (Post.id post +:+ "_" +:+ pretty i)))
      by (intros; apply renderContent_key).
    rewrite (imap_seq_0 (Post.contents post)
               (λ i, Some (Post.id post +:+ "_" +:+ pretty i))).
    apply NoDup_fmap_2_strong; [|apply NoDup_seq].
    intros i j _ _ [= Heq]. by apply content_key_inj in Heq.
Qed.

(** X11. The listing page shows one block per entry of the query
    result, in the order of the query result and keyed by the entry's
    id; with no entry it shows no block. *)
Theorem listing_renders_one_block_per_entry
    styles dayjs_format databases_query blocks_children_list props :
  Index.getStaticProps databases_query blocks_children_list = Returns props →
  ∃ database,
    databases_query = Returns database
    ∧ length (element_children (Home.render styles dayjs_format props))
      = length (Database.results database)
    ∧ element_key <$> element_children (Home.render styles dayjs_format props)
      = (λ page, Some (page_id page)) <$> Database.results database
    ∧ (Database.results database = [] →
       Home.render styles dayjs_format props
       = Tag "div" None (Some (Styles.wrapper styles)) []).
Proof.
  intros (database & blockResponses & Hquery & _ & Hmap)%getStaticProps_inv.
  exists database. split; [exact Hquery|].
  destruct (mapResults_Returns _ _ _ Hmap) as (Hlen & Hids & _).
  unfold Home.render. cbn [element_children].
  split; [by rewrite length_fmap|]. split.
  - rewrite <- list_fmap_compose.
    change (element_key ∘ Home.renderPost styles dayjs_format)
      with (Some ∘ Post.id).
    by rewrite list_fmap_compose, Hids, <- list_fmap_compose.
  - intros Hempty. rewrite Hempty in Hlen.
    apply nil_length_inv in Hlen. by rewrite Hlen.
Qed.

Lemma listing_renders_one_block_per_entry_witness :
  element_key <$> element_children
    (Home.render sample_styles sample_format {| Index.posts := sample_posts |})
  = [Some "page-1"; Some "page-2"].
Proof.
  destruct (listing_renders_one_block_per_entry sample_styles sample_format
              sample_query sample_children {| Index.posts := sample_posts |})
    as (database & Hq & _ & Hkeys & _).
  - vm_compute. reflexivity.
  - injection Hq as <-. exact Hkeys.
Defined.

(** X12. Rendering keeps contents apart: when the class names of
    heading_3 and paragraph differ, two contents whose language is not
    [null] (as the mapper makes them) and that render to the same
    element are the same content. *)
Theorem rendering_keeps_contents_apart styles id1 i1 id2 i2 c1 c2 :
  Styles.heading3 styles ≠ Styles.paragraph styles →
  content_language c1 ≠ Some None →
  content_language c2 ≠ Some None →
  Home.renderContent styles id1 i1 c1 = Home.renderContent styles id2 i2 c2 →
  c1 = c2.
Proof.
  intros Hclass Hl1 Hl2 Heq.
  destruct c1 as [[] t1|t1 [l1|]], c2 as [[] t2|t2 [l2|]];
    simpl in *; try done; try congruence.
  injection Heq as _ Hcls ->.
  apply (inj (String.app _)) in Hcls. apply (inj (String.app " lang-")) in Hcls.
  by apply string_app_space_inj in Hcls as ->.
Qed.

Lemma rendering_keeps_contents_apart_witness :
  Styles.heading3 sample_styles ≠ Styles.paragraph sample_styles
  ∧ (∀ c, Home.renderContent sample_styles "page-1" 0 c
          = Home.renderContent sample_styles "page-1" 0 (CodeContent (Some "x=1") (Some "python")) →
          content_language c ≠ Some None →
          c = CodeContent (Some "x=1") (Some "python")).
Proof.
  assert (Hne : Styles.heading3 sample_styles ≠ Styles.paragraph sample_styles)
    by (vm_compute; discriminate).
  split; [exact Hne|]. intros c Heq Hlang.
  apply (rendering_keeps_contents_apart sample_styles "page-1" 0 "page-1" 0 c _
           Hne Hlang); [simpl; discriminate|exact Heq].
Defined.

(** ** The detail route *)

Lemma pushPath_count (s : string) (post : Post.t) :
  length (filter (λ path, SlugPage.slug (SlugPage.path_params path) = s)
            (SlugPage.pushPath [] post))
  = if decide (s = "") then 0%nat
    else length (filter (λ post, Post.slug post = Some s) [post]).
Proof.
  rewrite filter_cons, filter_nil.
  destruct (decide (routable post)) as [Hyes|Hno].
  - destruct (pushPath_routable post Hyes) as (slug & Hslug & ->).
    destruct Hyes as [_ Hne]. rewrite Hslug in Hne |- *.
    rewrite filter_cons, filter_nil. simpl.
    repeat case_decide; simplify_eq; done.
  - rewrite pushPath_not_routable, filter_nil by done.
    unfold routable in Hno.
    repeat case_decide; simplify_eq; try done.
    exfalso. apply Hno. split; congruence.
Qed.

(** X13. A failure of a fetch fails the detail route and never becomes
    a redirect: [getStaticProps] throws what [getPosts] or
    [getPostContents] throws, [getStaticPaths] throws what [getPosts]
    throws, and without route parameters [getStaticProps] throws
    nothing. *)
Theorem fetch_failure_fails_detail_route getPosts getPostContents :
  (∀ context params e,
     SlugPage.params context = Some params →
     getPosts (Some (SlugPage.slug params)) = Throws e →
     SlugPage.getStaticProps getPosts getPostContents context = Throws e)
  ∧ (∀ context params first rest e,
       SlugPage.params context = Some params →
       getPosts (Some (SlugPage.slug params)) = Returns (first :: rest) →
       getPostContents first = Throws e →
       SlugPage.getStaticProps getPosts getPostContents context = Throws e)
  ∧ (∀ e, getPosts None = Throws e → SlugPage.getStaticPaths getPosts = Throws e)
  ∧ (∀ context e,
       SlugPage.getStaticProps getPosts getPostContents context = Throws e →
       SlugPage.params context ≠ None).
Proof.
  unfold SlugPage.getStaticProps, SlugPage.getStaticPaths.
  split; [by intros context params e -> ->|].
  split; [intros context params first rest e -> -> Hc; simpl; by rewrite Hc|].
  split; [by intros e ->|].
  intros context e. by destruct (SlugPage.params context).
Qed.

Lemma fetch_failure_fails_detail_route_witness :
  SlugPage.getStaticProps sample_getPosts (λ _, Throws Rejected)
    (sample_context "hello") = Throws Rejected.
Proof.
  apply (proj1 (proj2 (fetch_failure_fails_detail_route sample_getPosts
                         (λ _, Throws Rejected)))
           (sample_context "hello") {| SlugPage.slug := "hello" |} hello_post []);
    reflexivity.
Defined.

(** X14. Static-path enumeration does not remove duplicates: every
    non-empty slug has as many paths as there are posts with that slug,
    and the empty slug has none. *)
Theorem paths_repeat_shared_slugs getPosts posts :
  getPosts None = Returns posts →
  ∃ result,
    SlugPage.getStaticPaths getPosts = Returns result
    ∧ ∀ s,
        length (filter (λ path, SlugPage.slug (SlugPage.path_params path) = s)
                  (SlugPage.paths result))
        = if decide (s = "") then 0%nat
          else length (filter (λ post, Post.slug post = Some s) posts).
Proof.
  intros Hposts. unfold SlugPage.getStaticPaths. rewrite Hposts. simpl.
  eexists. split; [reflexivity|]. simpl. intros s. clear Hposts.
  induction posts as [|post posts IH] using rev_ind.
  - simpl. by case_decide.
  - rewrite fold_left_app. simpl. rewrite pushPath_app, !filter_app, !length_app.
    rewrite pushPath_count, IH. by case_decide.
Qed.

Lemma paths_repeat_shared_slugs_witness :
  ∃ result,
    SlugPage.getStaticPaths (λ _, Returns [hello_post; empty_slug_post; hello_post])
      = Returns result
    ∧ filter (λ path, SlugPage.slug (SlugPage.path_params path) = "hello")
        (SlugPage.paths result)
      = [path_of "hello"; path_of "hello"].
Proof.
  destruct (paths_repeat_shared_slugs
              (λ _, Returns [hello_post; empty_slug_post; hello_post])
              [hello_post; empty_slug_post; hello_post] eq_refl)
    as (result & Hresult & _).
  exists result. split; [exact Hresult|].
  injection Hresult as <-. vm_compute. reflexivity.
Defined.
